(** * diwrapper: a batching wrapper around a dependency-injection graph

    A shallow embedding of [diwrapper.go].  The wrapper owns a resolver
    graph (the external [inject.Graph]), a list of closed batches
    ([objects]) and a buffer of registrations that are not yet part of a
    batch ([tmpObjects]).  Methods with a pointer receiver become
    computations in a small state-and-panic monad; the two methods with a
    value receiver and no effect are pure functions. *)

From Stdlib Require Import List String Ascii Bool Arith Lia Permutation.
From Stdlib Require Import DecimalString.
Import ListNotations.
Open Scope string_scope.

Set Implicit Arguments.

(** ** Run-time values

    Only what the wrapper looks at is kept of a Go value held in an
    [interface{}]: its dynamic type (for [reflect.TypeOf], [%T] and
    interface comparison) and one word of data (the address, for a
    pointer).  A registration call takes any value, so the types
    include those on which [==] panics: slices, maps, functions and
    structs with a field of such a type. *)

Inductive Kind := KInt | KString | KStruct | KPtr | KSlice | KMap | KFunc.

Inductive GoType :=
| TInt
| TString
| TStruct (name : string)    (* a struct whose fields are all comparable *)
| TPtr (elem : GoType)
| TSlice (elem : GoType)
| TMap (key elem : GoType)
| TFunc
| TStructU (name : string).  (* a struct with a field of uncomparable type *)

Definition kind (t : GoType) : Kind :=
  match t with
  | TInt => KInt
  | TString => KString
  | TStruct _ => KStruct
  | TPtr _ => KPtr
  | TSlice _ => KSlice
  | TMap _ _ => KMap
  | TFunc => KFunc
  | TStructU _ => KStruct
  end.

Definition Kind_eqb (a b : Kind) : bool :=
  match a, b with
  | KInt, KInt | KString, KString | KStruct, KStruct | KPtr, KPtr => true
  | KSlice, KSlice | KMap, KMap | KFunc, KFunc => true
  | _, _ => false
  end.

Fixpoint GoType_eqb (a b : GoType) : bool :=
  match a, b with
  | TInt, TInt => true
  | TString, TString => true
  | TStruct n, TStruct m => String.eqb n m
  | TPtr x, TPtr y => GoType_eqb x y
  | TSlice x, TSlice y => GoType_eqb x y
  | TMap k x, TMap l y => GoType_eqb k l && GoType_eqb x y
  | TFunc, TFunc => true
  | TStructU n, TStructU m => String.eqb n m
  | _, _ => false
  end.

(** Whether [==] is defined on values of the type. *)
Definition comparable (t : GoType) : bool :=
  match t with
  | TInt | TString | TStruct _ | TPtr _ => true
  | TSlice _ | TMap _ _ | TFunc | TStructU _ => false
  end.

(** The name [%T] prints. *)
Fixpoint typeString (t : GoType) : string :=
  match t with
  | TInt => "int"
  | TString => "string"
  | TStruct n => n
  | TPtr e => "*" ++ typeString e
  | TSlice e => "[]" ++ typeString e
  | TMap k e => "map[" ++ typeString k ++ "]" ++ typeString e
  | TFunc => "func()"
  | TStructU n => n
  end.

Record Dyn := mkDyn { dynType : GoType; dynData : nat }.

(** [interface{}]: [None] is the nil interface. *)
Definition Any := option Dyn.

(** [reflect.TypeOf]: the nil [reflect.Type] for a nil interface. *)
Definition TypeOf (v : Any) : option GoType := option_map dynType v.

Definition optType_eqb (a b : option GoType) : bool :=
  match a, b with
  | None, None => true
  | Some x, Some y => GoType_eqb x y
  | _, _ => false
  end.

(** Whether two interface values are the same value: same dynamic type
    and same data.  This is what [==] returns when it returns. *)
Definition Any_eqb (a b : Any) : bool :=
  match a, b with
  | None, None => true
  | Some x, Some y => GoType_eqb (dynType x) (dynType y) && Nat.eqb (dynData x) (dynData y)
  | _, _ => false
  end.



(** [fmt.Sprintf("%T", v)]. *)
Definition formatT (v : Any) : string :=
  match v with
  | None => "<nil>"
  | Some d => typeString (dynType d)
  end.

(** [fmt.Sprintf("%d", n)]. *)
Definition formatD (n : nat) : string := NilZero.string_of_uint (Nat.to_uint n).

Definition nl : string := String (ascii_of_nat 10) "".

(** A Go [error]: [None] is nil, [Some s] an error whose [Error()] is [s]. *)
Definition error := option string.

(** [inject.Object], as far as the wrapper reads it. *)
Record Object := mkObject { Name : string; Value : Any }.

(** [%T] of an [*inject.Object] itself. *)
Definition formatT_Object (o : Object) : string := "*inject.Object".

(** ** The world outside the wrapper *)

Inductive Event :=
| Debugf (msg : string)      (* a message handed to [g.Logger.Debugf] *)
| InitCall (v : Any)         (* [v.Init()] was called *)
| CleanCall (v : Any)        (* [v.Clean()] was called *)
| Stderr (text : string).    (* text written to [os.Stderr] *)

Inductive PanicValue :=
| PanicString (msg : string)   (* [panic(fmt.Sprintf(...))] *)
| PanicError (err : string)    (* [panic(err)] with a non-nil error *)
| RuntimeError (msg : string). (* raised by the Go run time *)

Inductive Result (A : Type) :=
| Return (a : A)
| Panic (p : PanicValue).
Arguments Return {A} a.
Arguments Panic {A} p.

(** [a == b] on two interface values.  Values of different dynamic
    types differ; two values of one uncomparable dynamic type make the
    run time panic. *)
Definition interfaceEq (a b : Any) : Result bool :=
  match a, b with
  | None, None => Return true
  | Some x, Some y =>
      if GoType_eqb (dynType x) (dynType y) then
        if comparable (dynType x) then Return (Nat.eqb (dynData x) (dynData y))
        else Panic (RuntimeError ("comparing uncomparable type " ++ typeString (dynType x)))
      else Return false
  | _, _ => Return false
  end.

(** ** External collaborators *)

(** The graph resolver ([inject.Graph]).  [Provide] and [Populate] update
    the graph and return an error; [zeroGraph] is the zero value of
    [inject.Graph]. *)
Class Resolver (G : Type) := {
  zeroGraph : G;
  Provide : G -> Object -> G * error;
  Populate : G -> G * error;
  Objects : G -> list Object
}.

(** The optional capabilities of registered objects.  [isInitializer v]
    is the type assertion [v.(Initializer)]; [Init v h] is what the call
    returns when the events so far are [h].  Likewise for [Cleaner]. *)
Class Hooks := {
  isInitializer : Any -> bool;
  Init : Any -> list Event -> error;
  isCleaner : Any -> bool;
  Clean : Any -> list Event -> error
}.

(** The goroutines of one batch run in an order the program does not
    choose.  Each goroutine body is taken as one atomic step and the
    order in which the bodies run is given by [order]. *)
Class Scheduler := {
  order : list Object -> list Object;
  order_perm : forall l, Permutation (order l) l
}.

(** ** The wrapper *)

Record Graph (G : Type) := mkGraph { Logger : bool; resolver : G }.

Record InjectWrapper (G : Type) := mkWrapper {
  g : Graph G;
  objects : list (list Object);
  tmpObjects : list Object
}.

Record World (G : Type) := mkWorld {
  wrapper : InjectWrapper G;
  events : list Event
}.

(** Computations that update the world and either return or panic.  The
    world reached at a panic is kept. *)
Definition M (G A : Type) := World G -> Result A * World G.

Definition ret {G A} (a : A) : M G A := fun w => (Return a, w).

Definition bind {G A B} (m : M G A) (k : A -> M G B) : M G B :=
  fun w =>
    match m w with
    | (Return a, w') => k a w'
    | (Panic p, w') => (Panic p, w')
    end.

Definition panic {G A} (p : PanicValue) : M G A := fun w => (Panic p, w).

Declare Scope go_scope.
Delimit Scope go_scope with go.
Notation "x <- m ;; k" := (bind m (fun x => k))
  (at level 61, m at next level, right associativity) : go_scope.
Notation "m ;; k" := (bind m (fun _ => k))
  (at level 61, right associativity) : go_scope.
Open Scope go_scope.

Definition emit {G} (e : Event) : M G unit :=
  fun w => (Return tt, mkWorld (wrapper w) (events w ++ [e])%list).

Definition getWrapper {G} : M G (InjectWrapper G) :=
  fun w => (Return (wrapper w), w).

Definition modify {G} (f : InjectWrapper G -> InjectWrapper G) : M G unit :=
  fun w => (Return tt, mkWorld (f (wrapper w)) (events w)).

(** [for _, x := range l { body }] *)
Fixpoint forEach {G A} (l : list A) (body : A -> M G unit) : M G unit :=
  match l with
  | [] => ret tt
  | x :: l' => body x ;; forEach l' body
  end.

Section Wrapper.
Context {G : Type} {R : Resolver G} {HK : Hooks} {SC : Scheduler}.

Definition New : InjectWrapper G :=
  mkWrapper (mkGraph false zeroGraph) [] [].

Definition NewDebug : InjectWrapper G :=
  mkWrapper (mkGraph true zeroGraph) [] [].

Definition log (msg : string) : M G unit :=
  fun w =>
    if Logger (g (wrapper w)) then emit (Debugf msg) w else (Return tt, w).

(** [i.g.Provide(o)].  What the resolver itself writes to the logger is
    not part of the events. *)
Definition provide (o : Object) : M G error :=
  fun w =>
    let i := wrapper w in
    let (r', err) := Provide (resolver (g i)) o in
    (Return err,
     mkWorld (mkWrapper (mkGraph (Logger (g i)) r') (objects i) (tmpObjects i))
             (events w)).

(** [i.g.Populate()], the resolver's own debug lines left out as for
    [provide]. *)
Definition populate : M G error :=
  fun w =>
    let i := wrapper w in
    let (r', err) := Populate (resolver (g i)) in
    (Return err,
     mkWorld (mkWrapper (mkGraph (Logger (g i)) r') (objects i) (tmpObjects i))
             (events w)).

(** [i.tmpObjects = append(i.tmpObjects, o)] *)
Definition bufferObject (o : Object) : M G unit :=
  modify (fun i => mkWrapper (g i) (objects i) (tmpObjects i ++ [o])%list).

Definition WithObject (object : Any) : M G unit :=
  log ("Adding " ++ formatT object) ;;
  let o := mkObject "" object in
  err <- provide o ;;
  match err with
  | Some e =>
      panic (PanicString ("Error providing object " ++ formatT object ++ ":" ++ e))
  | None => bufferObject o
  end.

Definition WithObjects (objs : list Any) : M G unit :=
  forEach objs WithObject.

Definition WithObjectOrErr (object : Any) (err : error) : M G unit :=
  match err with
  | Some e => panic (PanicError e)
  | None =>
      log ("Adding " ++ formatT object) ;;
      let o := mkObject "" object in
      err <- provide o ;;
      match err with
      | Some e =>
          panic (PanicString ("Error providing object " ++ formatT object ++ ":" ++ e))
      | None => bufferObject o
      end
  end.

Definition WithNamedObject (name : string) (obj : Any) : M G unit :=
  log ("Adding " ++ name ++ ": " ++ formatT obj) ;;
  let o := mkObject name obj in
  err <- provide o ;;
  match err with
  | Some e =>
      panic (PanicString ("Error providing named object " ++ name ++ "."
                          ++ formatT obj ++ ":" ++ e))
  | None => bufferObject o
  end.

(** The two batch-closing operations touch the wrapper only. *)
Definition InitAsync (i : InjectWrapper G) : InjectWrapper G :=
  if Nat.eqb (List.length (tmpObjects i)) 0 then i
  else mkWrapper (g i) (objects i ++ [tmpObjects i])%list [].

Definition InitSync (i : InjectWrapper G) : InjectWrapper G :=
  if Nat.eqb (List.length (tmpObjects i)) 0 then i
  else
    mkWrapper (g i)
      (fold_left (fun objs obj => (objs ++ [[obj]])%list) (tmpObjects i) (objects i))
      [].

Definition AllObjects (i : InjectWrapper G) : list Any :=
  fold_left
    (fun res objs => fold_left (fun res o => (res ++ [Value o])%list) objs res)
    (objects i) [].

(** The inner loop of [MustGetNamedObject]: the first entry of a batch
    with the sample's type and the given name. *)
Fixpoint scanBatch (sampleType : GoType) (name : string) (objs : list Object)
  : option Any :=
  match objs with
  | [] => None
  | obj :: rest =>
      if optType_eqb (TypeOf (Value obj)) (Some sampleType)
         && String.eqb (Name obj) name
      then Some (Value obj)
      else scanBatch sampleType name rest
  end.

Fixpoint scanBatches (sampleType : GoType) (name : string)
         (batches : list (list Object)) : option Any :=
  match batches with
  | [] => None
  | objs :: rest =>
      match scanBatch sampleType name objs with
      | Some v => Some v
      | None => scanBatches sampleType name rest
      end
  end.

Definition MustGetNamedObject (i : InjectWrapper G) (sample : Any) (name : string)
  : Result Any :=
  match TypeOf sample with
  | None =>
      (* [sampleType.Kind()] on the nil [reflect.Type] *)
      Panic (RuntimeError "invalid memory address or nil pointer dereference")
  | Some sampleType =>
      if negb (Kind_eqb (kind sampleType) KPtr) then
        Panic (PanicString ("Sample must be interface, found " ++ formatT sample))
      else
        match scanBatches sampleType name (objects i) with
        | Some v => Return v
        | None =>
            Panic (PanicString ("Object not found: " ++ name ++ "." ++ formatT sample))
        end
  end.

Definition MustGetObject (i : InjectWrapper G) (sample : Any) : Result Any :=
  MustGetNamedObject i sample "".

(** The inner loop of [CheckNoImplicitObjects] over one batch: the flag
    [oOK] after it, or the panic of a comparison. *)
Fixpoint compareBatch (o : Object) (objs : list Object) (oOK : bool) : Result bool :=
  match objs with
  | [] => Return oOK
  | obj :: rest =>
      match interfaceEq (Value obj) (Value o) with
      | Return true => compareBatch o rest true
      | Return false => compareBatch o rest oOK
      | Panic p => Panic p
      end
  end.

Fixpoint compareBatches (o : Object) (batches : list (list Object)) (oOK : bool)
  : Result bool :=
  match batches with
  | [] => Return oOK
  | objs :: rest =>
      match compareBatch o objs oOK with
      | Return oOK' => compareBatches o rest oOK'
      | Panic p => Panic p
      end
  end.

(** The flag [oOK] after the two nested loops of [CheckNoImplicitObjects]. *)
Definition explicitlyCreated (batches : list (list Object)) (o : Object) : Result bool :=
  compareBatches o batches false.

Definition CheckNoImplicitObjects : M G unit :=
  i <- getWrapper ;;
  forEach (Objects (resolver (g i)))
    (fun o =>
       match explicitlyCreated (objects i) o with
       | Return true => log (formatT (Value o) ++ " OK" ++ nl)
       | Return false =>
           panic (PanicString (formatT (Value o) ++ " not explicitly created"))
       | Panic p => panic p
       end).

(** [initializer.Init()] *)
Definition callInit (v : Any) : M G error :=
  fun w => (Return (Init v (events w)),
            mkWorld (wrapper w) (events w ++ [InitCall v])%list).

(** [cleaner.Clean()] *)
Definition callClean (v : Any) : M G error :=
  fun w => (Return (Clean v (events w)),
            mkWorld (wrapper w) (events w ++ [CleanCall v])%list).

(** The body of one goroutine of [initAsync], run on the entry of its
    own iteration.  The deferred ["Initialized"] message is logged on
    both ways out; a panic in a goroutine ends the program, so it is the
    outcome of the whole call. *)
Definition initOne (obj : Object) : M G unit :=
  if isInitializer (Value obj) then
    log ("Initializing " ++ formatT (Value obj)) ;;
    err <- callInit (Value obj) ;;
    match err with
    | Some e =>
        log ("Initialized " ++ formatT (Value obj)) ;;
        panic (PanicString ("Error initializing privided object "
                            ++ formatT_Object obj ++ ":" ++ e))
    | None => log ("Initialized " ++ formatT (Value obj))
    end
  else ret tt.

Definition initAsync (objs : list Object) : M G unit :=
  (if Nat.ltb 1 (List.length objs) then
     log ("Asynchronously initializing: "
          ++ fold_left (fun list obj => list ++ formatT (Value obj)) objs "")
   else ret tt) ;;
  forEach (order objs) initOne.

Definition InitializeGraphWithImplicitObjects : M G unit :=
  modify InitSync ;;
  i <- getWrapper ;;
  log ("Initializing " ++ formatD (List.length (objects i)) ++ " objects") ;;
  err <- populate ;;
  match err with
  | Some e => panic (PanicString ("Error populating graph: " ++ e))
  | None =>
      i <- getWrapper ;;
      forEach (objects i) initAsync
  end.

Definition InitializeGraph : M G unit :=
  InitializeGraphWithImplicitObjects ;;
  CheckNoImplicitObjects.

(** The body of the loop of [Stop]. *)
Definition cleanOne (obj : Any) : M G unit :=
  if isCleaner obj then
    log ("Cleaning " ++ formatT obj) ;;
    err <- callClean obj ;;
    match err with
    | Some e => emit (Stderr ("Error cleaning " ++ formatT obj ++ ": " ++ e ++ nl))
    | None => ret tt
    end
  else ret tt.

Definition Stop : M G unit :=
  i <- getWrapper ;;
  forEach (AllObjects i) cleanOne.

Definition Stopper : M G unit := Stop.

End Wrapper.

(** ** Vocabulary of the specification *)

Section Vocabulary.
Context {G : Type} {R : Resolver G} {HK : Hooks} {SC : Scheduler}.

(** Every entry the caller has registered: the batch list in
    batch-then-entry order, then the registration buffer. *)
Definition registered (i : InjectWrapper G) : list Object :=
  (List.concat (objects i) ++ tmpObjects i)%list.

(** The values on which [Init] (resp. [Clean]) was called, in call order. *)
Definition initCalls (evs : list Event) : list Any :=
  flat_map (fun e => match e with InitCall v => [v] | _ => [] end) evs.

Definition cleanCalls (evs : list Event) : list Any :=
  flat_map (fun e => match e with CleanCall v => [v] | _ => [] end) evs.

(** What [MustGetNamedObject] compares for each entry. *)
Definition entryMatches (sampleType : GoType) (name : string) (obj : Object) : bool :=
  optType_eqb (TypeOf (Value obj)) (Some sampleType) && String.eqb (Name obj) name.

(** A value on which [==] never panics, whatever it is compared with. *)
Definition comparableValue (v : Any) : bool :=
  match v with
  | None => true
  | Some d => comparable (dynType d)
  end.

(** A resolved object [o] is implicit when no entry of the batch list
    holds the same value. *)
Definition implicit (i : InjectWrapper G) (o : Object) : bool :=
  negb (existsb (fun obj => Any_eqb (Value obj) (Value o)) (List.concat (objects i))).

(** [closeSyncBatch] in the words of the specification: each buffered
    entry moves into its own single-entry batch, buffer order is kept,
    and the buffer is cleared. *)
Definition closeSyncBatch_spec (i : InjectWrapper G) : InjectWrapper G :=
  mkWrapper (g i) (objects i ++ map (fun o => [o]) (tmpObjects i))%list [].

(** The two batch-closing operations under one name. *)
Inductive Closing := CloseAsync | CloseSync.

Definition close (c : Closing) (i : InjectWrapper G) : InjectWrapper G :=
  match c with
  | CloseAsync => InitAsync i
  | CloseSync => InitSync i
  end.

(** The registration calls of the builder API. *)
Inductive Registration :=
| RegObject (object : Any)
| RegObjectOrErr (object : Any) (err : error)
| RegNamedObject (name : string) (obj : Any).

Definition register (r : Registration) : M G unit :=
  match r with
  | RegObject v => WithObject v
  | RegObjectOrErr v e => WithObjectOrErr v e
  | RegNamedObject n v => WithNamedObject n v
  end.

(** The entry a registration call buffers. *)
Definition entryOf (r : Registration) : Object :=
  match r with
  | RegObject v => mkObject "" v
  | RegObjectOrErr v _ => mkObject "" v
  | RegNamedObject n v => mkObject n v
  end.

(** The wrapper of a world replaced, the events kept. *)
Definition withWrapper (f : InjectWrapper G -> InjectWrapper G) (w : World G) : World G :=
  mkWorld (f (wrapper w)) (events w).

(** A computation that leaves the wrapper alone and only adds events. *)
Definition onlyEmits {A} (m : M G A) : Prop :=
  forall w, exists evs, snd (m w) = mkWorld (wrapper w) (events w ++ evs)%list.

(** In [evs], emitted after the events [h], every [Clean] call that
    returned an error is followed at once by its report on stderr. *)
Definition reported (h evs : list Event) : Prop :=
  forall pre v post e,
    evs = (pre ++ CleanCall v :: post)%list ->
    Clean v (h ++ pre) = Some e ->
    exists post',
      post = Stderr ("Error cleaning " ++ formatT v ++ ": " ++ e ++ nl) :: post'.


End Vocabulary.

(** ** Collaborators for concrete runs

    A small resolver in the manner of [inject.Graph]: it keeps the
    provided objects in order, refuses a second object under a name that
    is taken, and on [Populate] adds the objects [created] that the
    caller never provided. *)

Definition nameTaken (name : string) (l : list Object) : bool :=
  existsb (fun o => String.eqb (Name o) name) l.

Definition listResolver (created : list Object) : Resolver (list Object) :=
  {| zeroGraph := [];
     Provide := fun gr o =>
       if negb (String.eqb (Name o) "") && nameTaken (Name o) gr
       then (gr, Some ("provided two instances named " ++ Name o))
       else ((gr ++ [o])%list, None);
     Populate := fun gr => ((gr ++ created)%list, None);
     Objects := fun gr => gr |}.

Definition ptrTo (name : string) (addr : nat) : Any :=
  Some (mkDyn (TPtr (TStruct name)) addr).

Definition typeNamed (name : string) (v : Any) : bool :=
  optType_eqb (TypeOf v) (Some (TPtr (TStruct name))).

(** [*InitializableStruct] and [*StoppableStruct] are the structs of the
    test file; the two [Failing] types return an error from their hook. *)
Definition sampleHooks : Hooks :=
  {| isInitializer := fun v =>
       typeNamed "diwrapper.InitializableStruct" v || typeNamed "diwrapper.FailingInit" v;
     Init := fun v _ =>
       if typeNamed "diwrapper.FailingInit" v then Some "boom" else None;
     isCleaner := fun v =>
       typeNamed "diwrapper.StoppableStruct" v || typeNamed "diwrapper.FailingClean" v;
     Clean := fun v _ =>
       if typeNamed "diwrapper.FailingClean" v then Some "busy" else None |}.

Definition inOrder : Scheduler :=
  {| order := fun l => l; order_perm := fun l => Permutation_refl l |}.

Definition lastFirst : Scheduler :=
  {| order := fun l => rev l; order_perm := fun l => Permutation_sym (Permutation_rev l) |}.

Definition startWorld {G} (i : InjectWrapper G) : World G := mkWorld i [].

(** Substring test, for looking into panic messages. *)
Fixpoint contains (sub s : string) : bool :=
  if String.prefix sub s then true
  else match s with
       | EmptyString => false
       | String _ rest => contains sub rest
       end.

(** Sample objects: the structs of the test file, and two whose hook
    fails. *)
Definition anInitializable : Any := ptrTo "diwrapper.InitializableStruct" 1.
Definition aStoppable : Any := ptrTo "diwrapper.StoppableStruct" 2.
Definition aFailingInit : Any := ptrTo "diwrapper.FailingInit" 3.
Definition aFailingClean : Any := ptrTo "diwrapper.FailingClean" 4.
Definition aBbb1 : Any := ptrTo "diwrapper.Bbb1" 5.
Definition anAaa1 : Any := ptrTo "diwrapper.Aaa1" 6.
Definition firstAaa : Any := ptrTo "diwrapper.Aaa" 7.
Definition secondAaa : Any := ptrTo "diwrapper.Aaa" 8.

(** The world after [New()] and the given registrations, with the
    resolver [R]. *)
Definition afterRegistering (R : Resolver (list Object)) (regs : list Registration)
  : World (list Object) :=
  snd (forEach regs (@register _ R) (startWorld (@New _ R))).

(** [New().WithObject(&InitializableStruct{}).WithObject(&StoppableStruct{})] *)
Definition twoObjectsWorld : World (list Object) :=
  afterRegistering (listResolver []) [RegObject anInitializable; RegObject aStoppable].

(** [New().WithObject(&FailingInit{})] *)
Definition failingInitWorld : World (list Object) :=
  afterRegistering (listResolver []) [RegObject aFailingInit].

(** A wrapper whose batch list holds two entries of one type under one
    name, in different batches. *)
Definition twoMatchesWrapper : InjectWrapper (list Object) :=
  mkWrapper (mkGraph false [])
            [[mkObject "" aBbb1; mkObject "aaa" firstAaa]; [mkObject "aaa" secondAaa]]
            [].

(** ** Vocabulary for the registration calls and the debug log *)

(** The error a constructor handed to [WithObjectOrErr]; nil for the
    other registration calls. *)
Definition constructorError (r : Registration) : error :=
  match r with
  | RegObjectOrErr _ e => e
  | _ => None
  end.

(** The debug line of a registration call. *)
Definition addingMessage (r : Registration) : string :=
  match r with
  | RegObject v => "Adding " ++ formatT v
  | RegObjectOrErr v _ => "Adding " ++ formatT v
  | RegNamedObject n v => "Adding " ++ n ++ ": " ++ formatT v
  end.

(** The panic message of a registration call whose [Provide] returned
    the error [e]. *)
Definition provideErrorMessage (r : Registration) (e : string) : string :=
  match r with
  | RegObject v => "Error providing object " ++ formatT v ++ ":" ++ e
  | RegObjectOrErr v _ => "Error providing object " ++ formatT v ++ ":" ++ e
  | RegNamedObject n v =>
      "Error providing named object " ++ n ++ "." ++ formatT v ++ ":" ++ e
  end.

Definition isDebugf (e : Event) : bool :=
  match e with
  | Debugf _ => true
  | _ => false
  end.

(** A computation that, run without a logger, leaves the wrapper alone
    and adds no debug line. *)
Definition quietly {G A} (m : M G A) : Prop :=
  forall w,
    Logger (g (wrapper w)) = false ->
    exists evs,
      snd (m w) = mkWorld (wrapper w) (events w ++ evs)%list
      /\ Forall (fun e => isDebugf e = false) evs.

(** A batch of exactly one entry. *)
Definition isSingleton (objs : list Object) : Prop := List.length objs = 1.

(** ** More collaborators for concrete runs *)

Definition isStructPtr (t : option GoType) : bool :=
  match t with
  | Some (TPtr (TStruct _)) => true
  | _ => false
  end.

(** A resolver that, like [inject.Graph], also refuses an unnamed value
    that is not a pointer to a struct. *)
Definition structPtrResolver : Resolver (list Object) :=
  {| zeroGraph := [];
     Provide := fun gr o =>
       if String.eqb (Name o) "" && negb (isStructPtr (TypeOf (Value o)))
       then (gr, Some "expected unnamed object value to be a pointer to a struct")
       else if negb (String.eqb (Name o) "") && nameTaken (Name o) gr
       then (gr, Some ("provided two instances named " ++ Name o))
       else ((gr ++ [o])%list, None);
     Populate := fun gr => (gr, None);
     Objects := fun gr => gr |}.

(** A resolver whose [Populate] finds a dependency it cannot satisfy. *)
Definition unresolvedResolver : Resolver (list Object) :=
  {| zeroGraph := [];
     Provide := fun gr o => ((gr ++ [o])%list, None);
     Populate := fun gr => (gr, Some "did not find object named unknown_aaa");
     Objects := fun gr => gr |}.

Definition anInt : Any := Some (mkDyn TInt 42).




(** [New().WithNamedObject("aaa", &Aaa{})] *)
Definition namedWorld : World (list Object) :=
  afterRegistering (listResolver []) [RegNamedObject "aaa" firstAaa].

(** [New().WithObjects(&InitializableStruct{}, &FailingInit{}, &InitializableStruct{})],
    the last object at another address. *)
Definition middleFailsWorld : World (list Object) :=
  afterRegistering (listResolver [])
    [RegObject anInitializable; RegObject aFailingInit;
     RegObject (ptrTo "diwrapper.InitializableStruct" 9)].

(** * Properties *)

(** ** Comparisons decide equality *)

Lemma GoType_eqb_eq (a b : GoType) : GoType_eqb a b = true <-> a = b.
Proof.
  revert b; induction a as [| |n|e IH|e IH|k IHk e IHe| |n]; intros b; destruct b; simpl;
    try (split; [discriminate | congruence]); try tauto.
  - rewrite String.eqb_eq. split; congruence.
  - rewrite IH. split; congruence.
  - rewrite IH. split; congruence.
  - rewrite andb_true_iff, IHk, IHe. split; [intros [-> ->]; reflexivity|].
    intros E; inversion E; auto.
  - rewrite String.eqb_eq. split; congruence.
Qed.

Lemma optType_eqb_eq (a b : option GoType) : optType_eqb a b = true <-> a = b.
Proof.
  destruct a as [x|], b as [y|]; simpl; try (split; [discriminate | congruence]);
    try tauto.
  rewrite GoType_eqb_eq. split; congruence.
Qed.




(** ** Loops as list functions *)

Lemma singleton_batches (tmp : list Object) (acc : list (list Object)) :
  fold_left (fun objs obj => (objs ++ [[obj]])%list) tmp acc
  = (acc ++ map (fun o => [o]) tmp)%list.
Proof.
  revert acc; induction tmp as [|o tmp IH]; intros acc; simpl.
  - now rewrite app_nil_r.
  - rewrite IH, <- app_assoc. reflexivity.
Qed.

Lemma append_values (objs : list Object) (res : list Any) :
  fold_left (fun res o => (res ++ [Value o])%list) objs res
  = (res ++ map Value objs)%list.
Proof.
  revert res; induction objs as [|o objs IH]; intros res; simpl.
  - now rewrite app_nil_r.
  - rewrite IH, <- app_assoc. reflexivity.
Qed.

Lemma scanBatch_find (t : GoType) (name : string) (objs : list Object) :
  scanBatch t name objs = option_map Value (find (entryMatches t name) objs).
Proof.
  induction objs as [|o objs IH]; simpl; [reflexivity|].
  unfold entryMatches at 1.
  destruct (optType_eqb (TypeOf (Value o)) (Some t) && String.eqb (Name o) name);
    [reflexivity | exact IH].
Qed.

Lemma find_app {A} (f : A -> bool) (l1 l2 : list A) :
  find f (l1 ++ l2)%list
  = match find f l1 with Some x => Some x | None => find f l2 end.
Proof.
  induction l1 as [|x l1 IH]; simpl; [reflexivity|].
  destruct (f x); [reflexivity | exact IH].
Qed.

Lemma scanBatches_find (t : GoType) (name : string) (batches : list (list Object)) :
  scanBatches t name batches
  = option_map Value (find (entryMatches t name) (List.concat batches)).
Proof.
  induction batches as [|objs batches IH]; simpl; [reflexivity|].
  rewrite find_app, scanBatch_find.
  destruct (find (entryMatches t name) objs); simpl; [reflexivity | exact IH].
Qed.

Lemma entryMatches_iff (t : GoType) (name : string) (obj : Object) :
  entryMatches t name obj = true
  <-> TypeOf (Value obj) = Some t /\ Name obj = name.
Proof.
  unfold entryMatches. now rewrite andb_true_iff, optType_eqb_eq, String.eqb_eq.
Qed.

Lemma find_first {A} (f : A -> bool) (before after : list A) (x : A) :
  (forall y, In y before -> f y = false) -> f x = true ->
  find f (before ++ x :: after)%list = Some x.
Proof.
  intros Hb Hx. induction before as [|y before IH]; simpl.
  - now rewrite Hx.
  - rewrite (Hb y (or_introl eq_refl)). apply IH.
    intros z Hz. apply Hb. now right.
Qed.

Section Queries.
Context {G : Type}.

Lemma InitSync_is_spec (i : InjectWrapper G) : InitSync i = closeSyncBatch_spec i.
Proof.
  unfold InitSync, closeSyncBatch_spec. destruct i as [gr objs tmp]; simpl.
  destruct tmp as [|o tmp]; simpl.
  - now rewrite app_nil_r.
  - rewrite singleton_batches, <- app_assoc. reflexivity.
Qed.

Lemma AllObjects_concat (i : InjectWrapper G) :
  AllObjects i = map Value (List.concat (objects i)).
Proof.
  unfold AllObjects.
  enough (E : forall bs res,
             fold_left (fun res objs =>
                          fold_left (fun res o => (res ++ [Value o])%list) objs res)
                       bs res
             = (res ++ map Value (List.concat bs))%list) by apply (E _ []).
  induction bs as [|objs bs IH]; intros res; simpl.
  - now rewrite app_nil_r.
  - rewrite IH, append_values, map_app, app_assoc. reflexivity.
Qed.

(** C8: [InitAsync] with a non-empty buffer appends the whole buffer as
    one batch at the end of the batch list and empties the buffer (the
    graph is not touched); with an empty buffer it changes nothing. *)
Theorem InitAsync_moves_buffer_into_one_batch (i : InjectWrapper G) :
  (tmpObjects i <> [] ->
     objects (InitAsync i) = (objects i ++ [tmpObjects i])%list
     /\ tmpObjects (InitAsync i) = []
     /\ g (InitAsync i) = g i)
  /\ (tmpObjects i = [] -> InitAsync i = i).
Proof.
  unfold InitAsync. destruct (tmpObjects i) as [|o tmp] eqn:E; simpl; split.
  - intros Hne; now elim Hne.
  - reflexivity.
  - intros _; auto.
  - discriminate.
Qed.

Lemma close_empties_buffer (c : Closing) (i : InjectWrapper G) :
  tmpObjects (close c i) = [].
Proof.
  destruct c; simpl; unfold InitAsync, InitSync;
    destruct (tmpObjects i) eqn:E; simpl; auto.
Qed.

Lemma close_empty_buffer (c : Closing) (i : InjectWrapper G) :
  tmpObjects i = [] -> close c i = i.
Proof.
  intros E. destruct c; simpl; unfold InitAsync, InitSync; now rewrite E.
Qed.

(** C10: each batch-closing operation leaves the buffer empty, and a
    second batch-closing operation right after the first, whichever
    the two are, changes nothing. *)
Theorem second_close_is_noop (first second : Closing) (i : InjectWrapper G) :
  tmpObjects (close first i) = []
  /\ close second (close first i) = close first i
  /\ objects (close second (close first i)) = objects (close first i).
Proof.
  pose proof (close_empties_buffer first i) as E.
  repeat split; [exact E | |]; now rewrite (close_empty_buffer second _ E).
Qed.

(** C6: [MustGetNamedObject] panics when the sample is not of pointer
    kind; otherwise it returns the value of the first entry of the
    batch list, in batch-then-entry order, whose value has the
    sample's type and whose name is the given name, and panics when
    there is none.  [MustGetObject] is the query for the empty name. *)
Theorem MustGetNamedObject_spec (i : InjectWrapper G) (sample : Any) (name : string) :
  MustGetNamedObject i sample name
  = match sample with
    | None => Panic (RuntimeError "invalid memory address or nil pointer dereference")
    | Some d =>
        match kind (dynType d) with
        | KPtr =>
            match find (entryMatches (dynType d) name) (List.concat (objects i)) with
            | Some obj => Return (Value obj)
            | None =>
                Panic (PanicString ("Object not found: " ++ name ++ "." ++ formatT sample))
            end
        | _ => Panic (PanicString ("Sample must be interface, found " ++ formatT sample))
        end
    end
  /\ MustGetObject i sample = MustGetNamedObject i sample ""
  /\ forall t obj, entryMatches t name obj = true
                   <-> TypeOf (Value obj) = Some t /\ Name obj = name.
Proof.
  split; [|split; [reflexivity | intros; apply entryMatches_iff]].
  unfold MustGetNamedObject. destruct sample as [d|]; simpl; [|reflexivity].
  destruct (kind (dynType d)) eqn:K; simpl; try reflexivity.
  rewrite scanBatches_find.
  destruct (find (entryMatches (dynType d) name) (List.concat (objects i)));
    reflexivity.
Qed.

(** C9: when several entries have the sample's type and the given name,
    [MustGetNamedObject] returns the value of the first of them in
    batch-then-entry order, whatever follows it. *)
Theorem MustGetNamedObject_first_match
        (i : InjectWrapper G) (sample : Any) (t : GoType) (name : string)
        (before after : list Object) (o : Object) :
  TypeOf sample = Some t -> kind t = KPtr ->
  List.concat (objects i) = (before ++ o :: after)%list ->
  TypeOf (Value o) = Some t -> Name o = name ->
  (forall o', In o' before -> ~ (TypeOf (Value o') = Some t /\ Name o' = name)) ->
  MustGetNamedObject i sample name = Return (Value o).
Proof.
  intros Ht Hk Hsplit Hot Hon Hbefore.
  unfold MustGetNamedObject. rewrite Ht, Hk; simpl.
  rewrite scanBatches_find, Hsplit, (@find_first _ _ before after o); auto.
  - intros y Hy. destruct (entryMatches t name y) eqn:E; [|reflexivity].
    apply entryMatches_iff in E. now elim (Hbefore y Hy).
  - apply entryMatches_iff. auto.
Qed.

End Queries.

(** ** Running computations *)

#[local] Arguments String.append : simpl never.

Lemma world_eta {G} (w : World G) : mkWorld (wrapper w) (events w ++ [])%list = w.
Proof. destruct w; simpl. now rewrite app_nil_r. Qed.

Lemma bind_Return {G A B} (m : M G A) (k : A -> M G B) w a w' :
  m w = (Return a, w') -> bind m k w = k a w'.
Proof. unfold bind. now intros ->. Qed.

Lemma bind_Panic {G A B} (m : M G A) (k : A -> M G B) w p w' :
  m w = (Panic p, w') -> bind m k w = (Panic p, w').
Proof. unfold bind. now intros ->. Qed.

Lemma bind_ext {G A B} (m : M G A) (k1 k2 : A -> M G B) w :
  (forall a w', k1 a w' = k2 a w') -> bind m k1 w = bind m k2 w.
Proof. intros E. unfold bind. destruct (m w) as [[a|p] w']; auto. Qed.

Lemma app_split_at {A} (l1 l2 pre post : list A) (x : A) :
  (l1 ++ l2 = pre ++ x :: post)%list ->
  (exists post1, l1 = (pre ++ x :: post1)%list /\ post = (post1 ++ l2)%list)
  \/ (exists pre2, pre = (l1 ++ pre2)%list /\ l2 = (pre2 ++ x :: post)%list).
Proof.
  revert pre; induction l1 as [|y l1 IH]; intros pre E; simpl in E.
  - right. exists pre. auto.
  - destruct pre as [|z pre]; simpl in E; inversion E; subst.
    + left. exists l1. auto.
    + destruct (IH pre H1) as [[post1 [-> ->]] | [pre2 [-> ->]]].
      * left. exists post1. auto.
      * right. exists pre2. auto.
Qed.

Lemma initCalls_app (a b : list Event) :
  initCalls (a ++ b) = (initCalls a ++ initCalls b)%list.
Proof. apply flat_map_app. Qed.

Lemma cleanCalls_app (a b : list Event) :
  cleanCalls (a ++ b) = (cleanCalls a ++ cleanCalls b)%list.
Proof. apply flat_map_app. Qed.



Section Lifecycle.
Context {G : Type} {R : Resolver G} {HK : Hooks} {SC : Scheduler}.

Local Abbreviation onlyEmits := (@onlyEmits G _).

Lemma log_run (msg : string) (w : World G) :
  log msg w
  = (Return tt,
     mkWorld (wrapper w)
             (events w ++ if Logger (g (wrapper w)) then [Debugf msg] else [])%list).
Proof.
  unfold log, emit. destruct (Logger (g (wrapper w))); [reflexivity|].
  now rewrite world_eta.
Qed.

Lemma onlyEmits_ret {A} (a : A) : onlyEmits (@ret G A a).
Proof. intros w. exists []. simpl. now rewrite world_eta. Qed.

Lemma onlyEmits_panic {A} (p : PanicValue) : onlyEmits (@panic G A p).
Proof. intros w. exists []. simpl. now rewrite world_eta. Qed.

Lemma onlyEmits_log (msg : string) : onlyEmits (log msg).
Proof. intros w. rewrite log_run. eexists. reflexivity. Qed.

Lemma onlyEmits_emit (e : Event) : onlyEmits (emit e).
Proof. intros w. exists [e]. reflexivity. Qed.

Lemma onlyEmits_bind {A B} (m : M G A) (k : A -> M G B) :
  onlyEmits m -> (forall a, onlyEmits (k a)) -> onlyEmits (bind m k).
Proof.
  intros Hm Hk w. unfold bind. destruct (Hm w) as [e1 E1].
  destruct (m w) as [[a|p] w1]; simpl in E1; subst w1.
  - destruct (Hk a (mkWorld (wrapper w) (events w ++ e1)%list)) as [e2 E2].
    exists (e1 ++ e2)%list. rewrite E2. simpl. now rewrite app_assoc.
  - exists e1. reflexivity.
Qed.

Lemma onlyEmits_forEach {A} (l : list A) (body : A -> M G unit) :
  (forall x, onlyEmits (body x)) -> onlyEmits (forEach l body).
Proof.
  intros Hb. induction l as [|x l IH]; simpl.
  - apply onlyEmits_ret.
  - apply onlyEmits_bind; auto.
Qed.

Lemma onlyEmits_callInit (v : Any) : onlyEmits (callInit v).
Proof. intros w. exists [InitCall v]. reflexivity. Qed.

Lemma onlyEmits_initOne (obj : Object) : onlyEmits (initOne obj).
Proof.
  unfold initOne. destruct (isInitializer (Value obj)); [|apply onlyEmits_ret].
  apply onlyEmits_bind; [apply onlyEmits_log|]. intros _.
  apply onlyEmits_bind; [apply onlyEmits_callInit|]. intros [e|].
  - apply onlyEmits_bind; [apply onlyEmits_log|]. intros _. apply onlyEmits_panic.
  - apply onlyEmits_log.
Qed.

Lemma onlyEmits_initAsync (objs : list Object) : onlyEmits (initAsync objs).
Proof.
  unfold initAsync. apply onlyEmits_bind.
  - destruct (Nat.ltb 1 (List.length objs)); [apply onlyEmits_log | apply onlyEmits_ret].
  - intros _. apply onlyEmits_forEach, onlyEmits_initOne.
Qed.

(** C7: with a non-nil error [WithObjectOrErr] panics with that error
    at once, in an unchanged world (nothing is logged, provided or
    buffered); with a nil error it is [WithObject]. *)
Theorem WithObjectOrErr_spec (object : Any) (w : World G) :
  (forall e, WithObjectOrErr object (Some e) w = (Panic (PanicError e), w))
  /\ WithObjectOrErr object None w = WithObject object w.
Proof. split; reflexivity. Qed.

(** *** Teardown *)



Lemma reported_app (h e1 e2 : list Event) :
  reported h e1 -> reported (h ++ e1) e2 -> reported h (e1 ++ e2).
Proof.
  intros H1 H2 pre v post e Hsplit Hc.
  destruct (app_split_at _ _ _ _ _ Hsplit) as [[post1 [-> ->]] | [pre2 [-> ->]]].
  - destruct (H1 pre v post1 e eq_refl Hc) as [post' ->].
    exists (post' ++ e2)%list. reflexivity.
  - apply (H2 pre2 v post e eq_refl). now rewrite <- app_assoc.
Qed.

Lemma cleanOne_run (obj : Any) (w : World G) :
  exists evs,
    cleanOne obj w = (Return tt, mkWorld (wrapper w) (events w ++ evs)%list)
    /\ cleanCalls evs = (if isCleaner obj then [obj] else [])
    /\ reported (events w) evs.
Proof.
  unfold cleanOne. destruct (isCleaner obj).
  2:{ exists []. simpl. rewrite world_eta. repeat split.
      intros [|x pre] v post e E; discriminate E. }
  unfold bind. rewrite log_run. unfold callClean, emit, ret; simpl.
  set (l := if Logger (g (wrapper w)) then [Debugf ("Cleaning " ++ formatT obj)] else []).
  destruct (Clean obj (events w ++ l)) as [e|] eqn:C.
  - exists (l ++ [CleanCall obj; Stderr ("Error cleaning " ++ formatT obj ++ ": " ++ e ++ nl)])%list.
    repeat split.
    + simpl. now rewrite <- !app_assoc.
    + rewrite cleanCalls_app. subst l.
      destruct (Logger (g (wrapper w))); reflexivity.
    + intros pre v post e' E Hc. subst l.
      destruct (Logger (g (wrapper w))); simpl in E.
      * destruct pre as [|x [|y [|z pre]]]; simpl in E; inversion E; subst.
        -- rewrite C in Hc. inversion Hc; subst. eexists; reflexivity.
        -- destruct pre; discriminate.
      * destruct pre as [|x [|y pre]]; simpl in E; inversion E; subst.
        -- rewrite C in Hc. inversion Hc; subst. eexists; reflexivity.
        -- destruct pre; discriminate.
  - exists (l ++ [CleanCall obj])%list. repeat split.
    + simpl. now rewrite <- !app_assoc.
    + rewrite cleanCalls_app. subst l.
      destruct (Logger (g (wrapper w))); reflexivity.
    + intros pre v post e' E Hc. subst l.
      destruct (Logger (g (wrapper w))); simpl in E.
      * destruct pre as [|x [|y pre]]; simpl in E; inversion E; subst.
        -- rewrite C in Hc. discriminate.
        -- destruct pre; discriminate.
      * destruct pre as [|x pre]; simpl in E; inversion E; subst.
        -- rewrite app_nil_r in C. rewrite app_nil_r in Hc. congruence.
        -- destruct pre; discriminate.
Qed.

Lemma cleanAll_run (vals : list Any) (w : World G) :
  exists evs,
    forEach vals cleanOne w = (Return tt, mkWorld (wrapper w) (events w ++ evs)%list)
    /\ cleanCalls evs = filter isCleaner vals
    /\ reported (events w) evs.
Proof.
  revert w; induction vals as [|v vals IH]; intros w; simpl.
  - exists []. unfold ret. rewrite world_eta. repeat split.
    intros [|x pre] v post e E; discriminate E.
  - destruct (cleanOne_run v w) as [e1 [E1 [C1 R1]]].
    destruct (IH (mkWorld (wrapper w) (events w ++ e1)%list)) as [e2 [E2 [C2 R2]]].
    exists (e1 ++ e2)%list. repeat split.
    + rewrite (bind_Return _ _ _ E1), E2. simpl. now rewrite app_assoc.
    + rewrite cleanCalls_app, C1, C2. now destruct (isCleaner v).
    + apply reported_app; assumption.
Qed.

(** C4: [Stop] returns normally, leaves the wrapper as it was, and
    calls [Clean] on exactly the values of the batch list that are
    [Cleaner]s, in batch-then-entry order, whatever the calls return;
    every call that returns an error is followed at once by a line on
    stderr with the value's type and the error text. *)
Theorem Stop_cleans_every_Cleaner (w : World G) :
  exists evs,
    Stop w = (Return tt, mkWorld (wrapper w) (events w ++ evs)%list)
    /\ cleanCalls evs = filter isCleaner (map Value (List.concat (objects (wrapper w))))
    /\ AllObjects (wrapper w) = map Value (List.concat (objects (wrapper w)))
    /\ forall pre v post e,
         evs = (pre ++ CleanCall v :: post)%list ->
         Clean v (events w ++ pre) = Some e ->
         exists post',
           post = Stderr ("Error cleaning " ++ formatT v ++ ": " ++ e ++ nl) :: post'.
Proof.
  destruct (cleanAll_run (AllObjects (wrapper w)) w) as [evs [E [C Rp]]].
  exists evs. rewrite <- AllObjects_concat. repeat split; auto.
Qed.

(** *** Initialization *)

Lemma concat_singletons {A} (l : list A) : List.concat (map (fun x => [x]) l) = l.
Proof. induction l as [|x l IH]; simpl; congruence. Qed.

Lemma concat_after_InitSync (i : InjectWrapper G) :
  List.concat (objects (InitSync i)) = registered i.
Proof.
  rewrite InitSync_is_spec. unfold closeSyncBatch_spec, registered; simpl.
  now rewrite concat_app, concat_singletons.
Qed.

(** [InitializeGraphWithImplicitObjects], step by step: close the
    buffer, log, populate, then either panic or run the batches. *)
Lemma InitializeGraphWithImplicitObjects_run (w : World G) :
  InitializeGraphWithImplicitObjects w
  = let i := InitSync (wrapper w) in
    let w1 :=
      mkWorld
        (mkWrapper (mkGraph (Logger (g i)) (fst (Populate (resolver (g i)))))
                   (objects i) (tmpObjects i))
        (events w ++
           if Logger (g i)
           then [Debugf ("Initializing " ++ formatD (List.length (objects i)) ++ " objects")]
           else [])%list in
    match snd (Populate (resolver (g i))) with
    | Some e => (Panic (PanicString ("Error populating graph: " ++ e)), w1)
    | None => forEach (objects i) initAsync w1
    end.
Proof.
  unfold InitializeGraphWithImplicitObjects, bind, modify, getWrapper.
  cbn [wrapper events]. rewrite log_run. cbn [wrapper events].
  unfold populate. cbn [wrapper events g objects tmpObjects resolver Logger].
  destruct (Populate (resolver (g (InitSync (wrapper w))))) as [r' [e|]];
    reflexivity.
Qed.

Lemma g_InitSync (i : InjectWrapper G) : g (InitSync i) = g i.
Proof. now rewrite InitSync_is_spec. Qed.

Lemma initOne_ok (obj : Object) (w : World G) :
  (forall h, isInitializer (Value obj) = true -> Init (Value obj) h = None) ->
  exists evs,
    initOne obj w = (Return tt, mkWorld (wrapper w) (events w ++ evs)%list)
    /\ initCalls evs = (if isInitializer (Value obj) then [Value obj] else []).
Proof.
  intros Hok. unfold initOne. destruct (isInitializer (Value obj)) eqn:I.
  2:{ exists []. unfold ret. now rewrite world_eta. }
  unfold bind. rewrite log_run. unfold callInit. cbn [wrapper events].
  rewrite (Hok _ eq_refl), log_run. cbn [wrapper events].
  eexists. split.
  - rewrite <- !app_assoc. reflexivity.
  - rewrite !initCalls_app. destruct (Logger (g (wrapper w))); reflexivity.
Qed.

(** What [initOne] does when the hook fails: whatever the object, the
    type in the message is that of the [*inject.Object] wrapper. *)
Lemma initOne_error (obj : Object) (w : World G) (e : string) :
  isInitializer (Value obj) = true ->
  (forall h, Init (Value obj) h = Some e) ->
  fst (initOne obj w)
  = Panic (PanicString ("Error initializing privided object *inject.Object:" ++ e)).
Proof.
  intros I He. unfold initOne, bind. rewrite I, log_run. unfold callInit.
  cbn [wrapper events]. rewrite He, log_run. reflexivity.
Qed.

Lemma initEach_ok (l : list Object) (w : World G) :
  (forall obj h, In obj l -> isInitializer (Value obj) = true ->
                 Init (Value obj) h = None) ->
  exists evs,
    forEach l initOne w = (Return tt, mkWorld (wrapper w) (events w ++ evs)%list)
    /\ initCalls evs = filter isInitializer (map Value l).
Proof.
  revert w; induction l as [|obj l IH]; intros w Hok; simpl.
  - exists []. unfold ret. now rewrite world_eta.
  - destruct (initOne_ok obj w) as [e1 [E1 C1]].
    { intros h. apply Hok. now left. }
    destruct (IH (mkWorld (wrapper w) (events w ++ e1)%list)) as [e2 [E2 C2]].
    { intros o h Ho. apply Hok. now right. }
    exists (e1 ++ e2)%list. split.
    + rewrite (bind_Return _ _ _ E1), E2. cbn [wrapper events].
      now rewrite app_assoc.
    + rewrite initCalls_app, C1, C2. now destruct (isInitializer (Value obj)).
Qed.



(** *** The strict-mode check *)

Lemma interfaceEq_comparable (a b : Any) :
  comparableValue a = true -> interfaceEq a b = Return (Any_eqb a b).
Proof.
  destruct a as [x|], b as [y|]; simpl; try reflexivity.
  intros Hc. rewrite Hc. destruct (GoType_eqb (dynType x) (dynType y)); reflexivity.
Qed.

Lemma compareBatch_comparable (o : Object) (objs : list Object) (oOK : bool) :
  (forall obj, In obj objs -> comparableValue (Value obj) = true) ->
  compareBatch o objs oOK
  = Return (oOK || existsb (fun obj => Any_eqb (Value obj) (Value o)) objs).
Proof.
  revert oOK; induction objs as [|x objs IH]; intros oOK Hc; simpl.
  - now rewrite orb_false_r.
  - rewrite interfaceEq_comparable by (apply Hc; now left).
    destruct (Any_eqb (Value x) (Value o)); rewrite IH by (intros; apply Hc; now right);
      simpl; [now rewrite orb_true_r | reflexivity].
Qed.

Lemma explicitlyCreated_comparable (batches : list (list Object)) (o : Object) :
  (forall obj, In obj (List.concat batches) -> comparableValue (Value obj) = true) ->
  explicitlyCreated batches o
  = Return (existsb (fun obj => Any_eqb (Value obj) (Value o)) (List.concat batches)).
Proof.
  unfold explicitlyCreated.
  enough (E : forall bs oOK,
             (forall obj, In obj (List.concat bs) -> comparableValue (Value obj) = true) ->
             compareBatches o bs oOK
             = Return (oOK || existsb (fun obj => Any_eqb (Value obj) (Value o))
                                      (List.concat bs)))
    by (intros Hc; apply (E _ false Hc)).
  induction bs as [|objs bs IH]; intros oOK Hc; simpl.
  - now rewrite orb_false_r.
  - rewrite compareBatch_comparable by (intros; apply Hc; simpl; apply in_or_app; now left).
    rewrite IH by (intros; apply Hc; simpl; apply in_or_app; now right).
    now rewrite existsb_app, orb_assoc.
Qed.


(** The loop of [CheckNoImplicitObjects] leaves the wrapper alone and
    calls no hook, however it ends. *)
Lemma checkLoop_events (i : InjectWrapper G) (l : list Object) (w : World G) :
  exists evs,
    snd (forEach l
           (fun o =>
              match explicitlyCreated (objects i) o with
              | Return true => log (formatT (Value o) ++ " OK" ++ nl)
              | Return false =>
                  panic (PanicString (formatT (Value o) ++ " not explicitly created"))
              | Panic p => panic p
              end)
           w)
    = mkWorld (wrapper w) (events w ++ evs)%list
    /\ initCalls evs = [].
Proof.
  revert w; induction l as [|o l IH]; intros w; simpl.
  - exists []. unfold ret; simpl. now rewrite world_eta.
  - unfold bind. destruct (explicitlyCreated (objects i) o) as [[|]|p].
    + rewrite log_run.
      destruct (IH (mkWorld (wrapper w)
                      (events w ++ if Logger (g (wrapper w))
                                   then [Debugf (formatT (Value o) ++ " OK" ++ nl)]
                                   else [])%list)) as [e2 [E2 C2]].
      eexists. rewrite E2. cbn [wrapper events]. rewrite <- app_assoc.
      split; [reflexivity|].
      rewrite initCalls_app, C2. destruct (Logger (g (wrapper w))); reflexivity.
    + exists []. unfold panic; simpl. now rewrite world_eta.
    + exists []. unfold panic; simpl. now rewrite world_eta.
Qed.

(** Its outcome when no entry of the batch list holds a value of
    uncomparable type. *)
Lemma checkLoop_outcome (i : InjectWrapper G) (l : list Object) (w : World G) :
  (forall obj, In obj (List.concat (objects i)) -> comparableValue (Value obj) = true) ->
  fst (forEach l
         (fun o =>
            match explicitlyCreated (objects i) o with
            | Return true => log (formatT (Value o) ++ " OK" ++ nl)
            | Return false =>
                panic (PanicString (formatT (Value o) ++ " not explicitly created"))
            | Panic p => panic p
            end)
         w)
  = match find (implicit i) l with
    | Some o => Panic (PanicString (formatT (Value o) ++ " not explicitly created"))
    | None => Return tt
    end.
Proof.
  intros Hc. revert w; induction l as [|o l IH]; intros w; simpl; [reflexivity|].
  unfold bind, implicit at 1. rewrite explicitlyCreated_comparable by exact Hc.
  destruct (existsb (fun obj => Any_eqb (Value obj) (Value o))
                    (List.concat (objects i))); simpl.
  - rewrite log_run. apply IH.
  - reflexivity.
Qed.

Lemma CheckNoImplicitObjects_events (w : World G) :
  exists evs,
    snd (CheckNoImplicitObjects w) = mkWorld (wrapper w) (events w ++ evs)%list
    /\ initCalls evs = [].
Proof.
  unfold CheckNoImplicitObjects, bind, getWrapper.
  apply (checkLoop_events (wrapper w)).
Qed.

Lemma CheckNoImplicitObjects_outcome (w : World G) :
  (forall obj, In obj (List.concat (objects (wrapper w))) ->
               comparableValue (Value obj) = true) ->
  fst (CheckNoImplicitObjects w)
  = match find (implicit (wrapper w)) (Objects (resolver (g (wrapper w)))) with
    | Some o => Panic (PanicString (formatT (Value o) ++ " not explicitly created"))
    | None => Return tt
    end.
Proof.
  intros Hc. unfold CheckNoImplicitObjects, bind, getWrapper.
  apply (checkLoop_outcome (wrapper w) _ _ Hc).
Qed.


Lemma InitSync_idempotent (i : InjectWrapper G) : InitSync (InitSync i) = InitSync i.
Proof.
  apply (close_empty_buffer CloseSync). apply (close_empties_buffer CloseSync).
Qed.

Lemma InitializeGraphWithImplicitObjects_after_InitSync (w : World G) :
  InitializeGraphWithImplicitObjects (withWrapper InitSync w)
  = InitializeGraphWithImplicitObjects w.
Proof.
  rewrite !InitializeGraphWithImplicitObjects_run. unfold withWrapper.
  cbn [wrapper events]. now rewrite InitSync_idempotent.
Qed.

Lemma InitializeGraphWithImplicitObjects_wrapper (w : World G) :
  objects (wrapper (snd (InitializeGraphWithImplicitObjects w)))
  = objects (InitSync (wrapper w))
  /\ tmpObjects (wrapper (snd (InitializeGraphWithImplicitObjects w)))
     = tmpObjects (InitSync (wrapper w)).
Proof.
  rewrite InitializeGraphWithImplicitObjects_run. cbv zeta.
  destruct (snd (Populate (resolver (g (InitSync (wrapper w)))))) as [e|].
  - split; reflexivity.
  - match goal with
    | |- context [forEach ?l initAsync ?w1] =>
        destruct (onlyEmits_forEach l initAsync onlyEmits_initAsync w1) as [evs ->]
    end.
    split; reflexivity.
Qed.

Lemma register_run (r : Registration) (w w1 : World G) :
  register r w = (Return tt, w1) ->
  tmpObjects (wrapper w1) = (tmpObjects (wrapper w) ++ [entryOf r])%list
  /\ objects (wrapper w1) = objects (wrapper w).
Proof.
  destruct r as [v | v [e|] | n v]; simpl;
    unfold WithObject, WithObjectOrErr, WithNamedObject, panic, bind;
    try discriminate; rewrite log_run; unfold provide; cbn [wrapper events];
    match goal with
    | |- context [Provide ?r ?o] => destruct (Provide r o) as [r' [e|]]
    end;
    try discriminate; unfold bufferObject, modify; cbn [wrapper events];
    intros E; inversion E; subst; split; reflexivity.
Qed.

Lemma registerAll_run (regs : list Registration) (w w1 : World G) :
  forEach regs register w = (Return tt, w1) ->
  tmpObjects (wrapper w1) = (tmpObjects (wrapper w) ++ map entryOf regs)%list
  /\ objects (wrapper w1) = objects (wrapper w).
Proof.
  revert w; induction regs as [|r regs IH]; intros w; simpl.
  - unfold ret. intros E; inversion E; subst. now rewrite app_nil_r.
  - unfold bind. destruct (register r w) as [[[]|p] w0] eqn:Er; [|discriminate].
    intros E. destruct (register_run _ _ Er) as [T0 O0].
    destruct (IH _ E) as [T1 O1]. rewrite T1, O1, T0, O0, <- app_assoc.
    split; reflexivity.
Qed.

(** C3: initialization closes the buffer as a sync batch first, so
    running it directly is the same as calling [InitSync] and then
    running it, also after any sequence of registrations; [InitSync]
    puts each buffered entry, in buffer order, into a batch of its
    own (it is [closeSyncBatch_spec]), and these are the batches the
    wrapper holds when initialization is over; registrations that
    return fill the buffer in registration order and leave the batch
    list alone. *)
Theorem initialization_closes_sync_batch (regs : list Registration) (w : World G) :
  InitializeGraphWithImplicitObjects w
  = (modify InitSync ;; InitializeGraphWithImplicitObjects) w
  /\ InitializeGraph w = (modify InitSync ;; InitializeGraph) w
  /\ (forEach regs register ;; InitializeGraph) w
     = (forEach regs register ;; modify InitSync ;; InitializeGraph) w
  /\ modify InitSync w = (Return tt, withWrapper closeSyncBatch_spec w)
  /\ objects (wrapper (snd (InitializeGraphWithImplicitObjects w)))
     = (objects (wrapper w) ++ map (fun o => [o]) (tmpObjects (wrapper w)))%list
  /\ tmpObjects (wrapper (snd (InitializeGraphWithImplicitObjects w))) = []
  /\ forall w1, forEach regs register w = (Return tt, w1) ->
                tmpObjects (wrapper w1) = (tmpObjects (wrapper w) ++ map entryOf regs)%list
                /\ objects (wrapper w1) = objects (wrapper w).
Proof.
  assert (Direct : forall w0 : World G,
             InitializeGraph w0 = (modify InitSync ;; InitializeGraph) w0).
  { intros w0. pose proof (InitializeGraphWithImplicitObjects_after_InitSync w0) as E.
    unfold withWrapper in E. unfold InitializeGraph, bind, modify.
    now rewrite E. }
  split; [|split; [apply Direct | split; [|split; [|split; [|split; [|apply registerAll_run]]]]]].
  - pose proof (InitializeGraphWithImplicitObjects_after_InitSync w) as E.
    unfold withWrapper in E. unfold bind, modify. now rewrite E.
  - apply bind_ext. intros _ w1. apply Direct.
  - unfold modify, withWrapper. now rewrite InitSync_is_spec.
  - destruct (InitializeGraphWithImplicitObjects_wrapper w) as [-> _].
    now rewrite InitSync_is_spec.
  - destruct (InitializeGraphWithImplicitObjects_wrapper w) as [_ ->].
    now rewrite InitSync_is_spec.
Qed.


End Lifecycle.

(** ** Concrete runs *)

(** [TestSimple]: one initializable object, default initialization. *)
Example run_TestSimple :
  let w := afterRegistering (listResolver []) [RegObject anInitializable] in
  exists w',
    @InitializeGraph _ (listResolver []) sampleHooks inOrder w = (Return tt, w')
    /\ initCalls (events w') = [anInitializable].
Proof. eexists. split; reflexivity. Qed.

(** [TestInjectionNotProvided]: the resolver creates an [*Aaa1] the
    caller never registered; the relaxed entry point returns, the strict
    one panics naming the type. *)
Example run_TestInjectionNotProvided :
  let R := listResolver [mkObject "" anAaa1] in
  let w := afterRegistering R [RegObject aBbb1] in
  fst (@InitializeGraphWithImplicitObjects _ R sampleHooks inOrder w) = Return tt
  /\ fst (@InitializeGraph _ R sampleHooks inOrder w)
     = Panic (PanicString "*diwrapper.Aaa1 not explicitly created").
Proof. split; reflexivity. Qed.

(** [TestDoubleNamed]: the second registration under one name panics. *)
Example run_TestDoubleNamed :
  fst (forEach [RegNamedObject "aaa" firstAaa; RegNamedObject "aaa" secondAaa]
               (@register _ (listResolver []))
               (startWorld (@New _ (listResolver []))))
  = Panic (PanicString
             "Error providing named object aaa.*diwrapper.Aaa:provided two instances named aaa").
Proof. reflexivity. Qed.

(** An object registered under two names is initialized once per entry. *)
Example run_same_object_two_names :
  let w := afterRegistering (listResolver [])
             [RegNamedObject "a" anInitializable; RegNamedObject "b" anInitializable] in
  exists w',
    @InitializeGraph _ (listResolver []) sampleHooks inOrder w = (Return tt, w')
    /\ initCalls (events w') = [anInitializable; anInitializable].
Proof. eexists. split; reflexivity. Qed.

(** A failing [Clean] is reported and the next object is still cleaned. *)
Example run_Stop_after_error :
  let w := afterRegistering (listResolver []) [RegObject aFailingClean; RegObject aStoppable] in
  let w1 := snd (@InitializeGraph _ (listResolver []) sampleHooks inOrder w) in
  exists w',
    @Stop _ sampleHooks w1 = (Return tt, w')
    /\ events w' = [CleanCall aFailingClean;
                    Stderr ("Error cleaning *diwrapper.FailingClean: busy" ++ nl);
                    CleanCall aStoppable].
Proof. eexists. split; reflexivity. Qed.

(** *** C1 *)



(** *** C2 *)



(** *** C5 *)

(** C5 at [New().WithObject(&FailingInit{})], whose [Init] returns the
    error "boom": initialization panics and the message has the error
    text, but the type it prints is that of the [*inject.Object]
    wrapper, not [*diwrapper.FailingInit]. *)
Theorem Init_error_panic_omits_object_type :
  formatT aFailingInit = "*diwrapper.FailingInit"
  /\ @Init sampleHooks aFailingInit [] = Some "boom"
  /\ fst (@InitializeGraphWithImplicitObjects _ (listResolver []) sampleHooks inOrder
            failingInitWorld)
     = Panic (PanicString "Error initializing privided object *inject.Object:boom")
  /\ contains "boom" "Error initializing privided object *inject.Object:boom" = true
  /\ contains (formatT aFailingInit)
              "Error initializing privided object *inject.Object:boom" = false.
Proof. repeat split. Qed.

(** *** C9 *)

Lemma MustGetNamedObject_first_match_witness :
  MustGetNamedObject twoMatchesWrapper (ptrTo "diwrapper.Aaa" 0) "aaa" = Return firstAaa.
Proof.
  apply (@MustGetNamedObject_first_match _ twoMatchesWrapper (ptrTo "diwrapper.Aaa" 0)
           (TPtr (TStruct "diwrapper.Aaa")) "aaa"
           [mkObject "" aBbb1] [mkObject "aaa" secondAaa] (mkObject "aaa" firstAaa));
    try reflexivity.
  intros o' [<-|[]] [Ht _]. discriminate Ht.
Defined.

(** * Further properties of the wrapper *)

Lemma forEach_app {G A} (a b : list A) (body : A -> M G unit) (w : World G) :
  forEach (a ++ b)%list body w = (forEach a body ;; forEach b body) w.
Proof.
  revert w; induction a as [|x a IH]; intros w; simpl.
  - reflexivity.
  - unfold bind. destruct (body x w) as [[[]|p] w1]; [|reflexivity].
    rewrite IH. reflexivity.
Qed.

Lemma singleton_batches_concat (batches : list (list Object)) :
  Forall isSingleton batches -> batches = map (fun o => [o]) (List.concat batches).
Proof.
  induction 1 as [|b bs Hb _ IH]; simpl; [reflexivity|].
  destruct b as [|o [|o' b]]; try discriminate Hb. simpl. now rewrite <- IH.
Qed.

Lemma Forall_singletons (l : list Object) : Forall isSingleton (map (fun o => [o]) l).
Proof. induction l; simpl; constructor; auto. reflexivity. Qed.

Section Registration.
Context {G : Type} {R : Resolver G}.

(** One registration call whose constructor error is nil, step by step. *)
Lemma register_outcome (r : Registration) (w : World G) :
  constructorError r = None ->
  register r w
  = let i := wrapper w in
    let evs := (events w ++ if Logger (g i) then [Debugf (addingMessage r)] else [])%list in
    let gr := mkGraph (Logger (g i)) (fst (Provide (resolver (g i)) (entryOf r))) in
    match snd (Provide (resolver (g i)) (entryOf r)) with
    | Some e =>
        (Panic (PanicString (provideErrorMessage r e)),
         mkWorld (mkWrapper gr (objects i) (tmpObjects i)) evs)
    | None =>
        (Return tt,
         mkWorld (mkWrapper gr (objects i) (tmpObjects i ++ [entryOf r])%list) evs)
    end.
Proof.
  intros Hc.
  destruct r as [v | v err | n v]; simpl in Hc; try subst err; simpl;
    unfold WithObject, WithObjectOrErr, WithNamedObject, panic, bind;
    rewrite log_run; unfold provide; cbn [wrapper events];
    match goal with
    | |- context [Provide ?gr ?o] => destruct (Provide gr o) as [r' [e|]]
    end; reflexivity.
Qed.

(** X1: a registration the resolver rejects panics with a message made
    of the value's type (and name) and the resolver's error; nothing is
    added to the buffer or to the batch list, and the graph is the one
    [Provide] left. *)
Theorem rejected_registration_buffers_nothing
        (r : Registration) (w : World G) (e : string) :
  constructorError r = None ->
  snd (Provide (resolver (g (wrapper w))) (entryOf r)) = Some e ->
  fst (register r w) = Panic (PanicString (provideErrorMessage r e))
  /\ tmpObjects (wrapper (snd (register r w))) = tmpObjects (wrapper w)
  /\ objects (wrapper (snd (register r w))) = objects (wrapper w)
  /\ resolver (g (wrapper (snd (register r w))))
     = fst (Provide (resolver (g (wrapper w))) (entryOf r)).
Proof.
  intros Hc He. rewrite (register_outcome _ _ Hc). cbv zeta. rewrite He.
  repeat split.
Qed.

(** X3: [WithObjects] registers its arguments from left to right and
    stops at the first one that panics: the objects before it stay
    registered and the ones after it are never provided. *)
Theorem WithObjects_stops_at_first_failure
        (before after : list Any) (v : Any) (w w1 w2 : World G) (p : PanicValue) :
  WithObjects before w = (Return tt, w1) ->
  WithObject v w1 = (Panic p, w2) ->
  WithObjects (before ++ v :: after) w = (Panic p, w2)
  /\ tmpObjects (wrapper w1)
     = (tmpObjects (wrapper w) ++ map (mkObject "") before)%list.
Proof.
  intros Hb Hv. split.
  - unfold WithObjects in *. rewrite forEach_app.
    rewrite (bind_Return _ _ _ Hb). simpl. now rewrite (bind_Panic _ _ _ Hv).
  - assert (E : forEach (map RegObject before) register w = (Return tt, w1)).
    { rewrite <- Hb. unfold WithObjects. clear. revert w.
      induction before as [|x l IH]; intros w; simpl; [reflexivity|].
      apply bind_ext. intros _ w'. apply IH. }
    destruct (registerAll_run _ _ E) as [T _]. rewrite T, map_map. reflexivity.
Qed.

End Registration.

Section Batches.
Context {G : Type}.

Lemma concat_after_close (c : Closing) (i : InjectWrapper G) :
  List.concat (objects (close c i)) = registered i.
Proof.
  destruct c; simpl.
  - unfold InitAsync, registered. destruct (tmpObjects i) as [|o tmp] eqn:E; simpl.
    + now rewrite app_nil_r.
    + rewrite concat_app. simpl. now rewrite app_nil_r.
  - rewrite InitSync_is_spec. unfold closeSyncBatch_spec, registered; simpl.
    rewrite concat_app. f_equal. induction (tmpObjects i); simpl; congruence.
Qed.

(** X4: both batch-closing operations keep every registered entry, in
    registration order, and the graph: whichever is used, the batch
    list flattens to the entries registered so far, which is also what
    [AllObjects] then reports. *)
Theorem closing_keeps_registered_entries (c : Closing) (i : InjectWrapper G) :
  List.concat (objects (close c i)) = registered i
  /\ registered (close c i) = registered i
  /\ AllObjects (close c i) = map Value (registered i)
  /\ g (close c i) = g i.
Proof.
  pose proof (concat_after_close c i) as E. repeat split.
  - exact E.
  - unfold registered at 1. rewrite E, close_empties_buffer. apply app_nil_r.
  - now rewrite AllObjects_concat, E.
  - destruct c; simpl; unfold InitAsync, InitSync;
      destruct (tmpObjects i); reflexivity.
Qed.

(** X5: a query gives the same answer after [InitAsync] as after
    [InitSync]: the grouping into batches does not matter to
    [MustGetNamedObject]. *)
Theorem query_ignores_batch_grouping
        (first second : Closing) (i : InjectWrapper G) (sample : Any) (name : string) :
  MustGetNamedObject (close first i) sample name
  = MustGetNamedObject (close second i) sample name.
Proof.
  unfold MustGetNamedObject. destruct (TypeOf sample) as [t|]; [|reflexivity].
  destruct (negb (Kind_eqb (kind t) KPtr)); [reflexivity|].
  now rewrite !scanBatches_find, !concat_after_close.
Qed.

(** X6: how many batches each closing adds: [InitSync] one per buffered
    entry, each of one entry, [InitAsync] one for a non-empty buffer and
    none for an empty one. *)
Theorem closing_batch_counts (i : InjectWrapper G) :
  List.length (objects (InitSync i))
  = List.length (objects i) + List.length (tmpObjects i)
  /\ List.length (objects (InitAsync i))
     = List.length (objects i) + Nat.min 1 (List.length (tmpObjects i))
  /\ (Forall isSingleton (objects i) -> Forall isSingleton (objects (InitSync i))).
Proof.
  rewrite InitSync_is_spec. unfold closeSyncBatch_spec, InitAsync. cbn [objects].
  split; [|split].
  - now rewrite length_app, length_map.
  - destruct (tmpObjects i) as [|o tmp]; simpl; [lia|].
    rewrite length_app. simpl. lia.
  - intros Hs. apply Forall_app. split; [exact Hs | apply Forall_singletons].
Qed.

(** X7: after a batch-closing operation a registered entry whose value
    is a pointer is found by a query for its type and name, and the
    query returns the entry's value when every registered entry of that
    type and name holds that value. *)
Theorem registered_entry_is_found
        (c : Closing) (i : InjectWrapper G) (o : Object) (t : GoType) (sample : Any) :
  In o (registered i) ->
  TypeOf (Value o) = Some t -> kind t = KPtr -> TypeOf sample = Some t ->
  (forall o', In o' (registered i) ->
              TypeOf (Value o') = Some t -> Name o' = Name o -> Value o' = Value o) ->
  MustGetNamedObject (close c i) sample (Name o) = Return (Value o).
Proof.
  intros Hin Ht Hk Hs Huniq. unfold MustGetNamedObject. rewrite Hs, Hk. simpl.
  rewrite scanBatches_find, concat_after_close.
  destruct (find (entryMatches t (Name o)) (registered i)) as [o'|] eqn:F; simpl.
  - apply find_some in F. destruct F as [Hin' Hm]. apply entryMatches_iff in Hm.
    destruct Hm as [Ht' Hn']. now rewrite (Huniq o' Hin' Ht' Hn').
  - pose proof (find_none _ _ F o Hin) as Hm.
    assert (Ht' : entryMatches t (Name o) o = true) by (apply entryMatches_iff; auto).
    congruence.
Qed.

End Batches.

Section Running.
Context {G : Type} {R : Resolver G} {HK : Hooks} {SC : Scheduler}.

Local Abbreviation quietly := (@quietly G _).

Lemma Stop_run (w : World G) : Stop w = forEach (AllObjects (wrapper w)) cleanOne w.
Proof. reflexivity. Qed.

(** X8: before any batch is closed the wrapper behaves as if nothing
    were registered, whatever the buffer holds: [Stop] cleans nothing,
    every query panics, and the strict check rejects the first object
    the resolver reports. *)
Theorem unclosed_buffer_is_invisible (w : World G) :
  objects (wrapper w) = [] ->
  Stop w = (Return tt, w)
  /\ (forall sample name, exists p, MustGetNamedObject (wrapper w) sample name = Panic p)
  /\ fst (CheckNoImplicitObjects w)
     = match Objects (resolver (g (wrapper w))) with
       | [] => Return tt
       | o :: _ => Panic (PanicString (formatT (Value o) ++ " not explicitly created"))
       end.
Proof.
  intros E. split; [|split].
  - rewrite Stop_run. unfold AllObjects. rewrite E. reflexivity.
  - intros sample name. unfold MustGetNamedObject. rewrite E.
    destruct (TypeOf sample) as [t|]; [|eexists; reflexivity].
    destruct (negb (Kind_eqb (kind t) KPtr)); eexists; reflexivity.
  - rewrite CheckNoImplicitObjects_outcome by (rewrite E; intros obj []).
    destruct (Objects (resolver (g (wrapper w)))) as [|o l]; [reflexivity|].
    simpl. unfold implicit. rewrite E. reflexivity.
Qed.

(** X9: when [Populate] returns an error, both initialization entry
    points panic with that error's text; the buffer has already been
    closed into singleton batches, and no [Init] hook has been called. *)
Theorem Populate_error_aborts_before_any_Init (w : World G) (e : string) :
  snd (Populate (resolver (g (wrapper w)))) = Some e ->
  exists evs w1,
    InitializeGraphWithImplicitObjects w
    = (Panic (PanicString ("Error populating graph: " ++ e)), w1)
    /\ InitializeGraph w = (Panic (PanicString ("Error populating graph: " ++ e)), w1)
    /\ events w1 = (events w ++ evs)%list
    /\ initCalls evs = []
    /\ objects (wrapper w1)
       = (objects (wrapper w) ++ map (fun o => [o]) (tmpObjects (wrapper w)))%list
    /\ tmpObjects (wrapper w1) = [].
Proof.
  intros He.
  assert (E : exists evs w1,
             InitializeGraphWithImplicitObjects w
             = (Panic (PanicString ("Error populating graph: " ++ e)), w1)
             /\ events w1 = (events w ++ evs)%list
             /\ initCalls evs = []
             /\ objects (wrapper w1) = objects (InitSync (wrapper w))
             /\ tmpObjects (wrapper w1) = tmpObjects (InitSync (wrapper w))).
  { rewrite InitializeGraphWithImplicitObjects_run. cbv zeta.
    rewrite g_InitSync, He. eexists. eexists. split; [reflexivity|].
    cbn [wrapper events objects tmpObjects]. split; [reflexivity|].
    split; [|split; reflexivity].
    destruct (Logger (g (wrapper w))); reflexivity. }
  destruct E as [evs [w1 [E1 [E2 [E3 [E4 E5]]]]]]. exists evs, w1.
  split; [exact E1|]. split.
  - unfold InitializeGraph. now rewrite (bind_Panic _ _ _ E1).
  - rewrite E4, E5, InitSync_is_spec. repeat split; assumption.
Qed.

Lemma order_singleton (o : Object) : order [o] = [o].
Proof.
  apply Permutation_length_1_inv, Permutation_sym, order_perm.
Qed.

Lemma initAsync_singleton (o : Object) (w : World G) : initAsync [o] w = initOne o w.
Proof.
  unfold initAsync. simpl. rewrite order_singleton. simpl. unfold bind, ret.
  destruct (initOne o w) as [[[]|p] w']; reflexivity.
Qed.

Lemma initSingletons (l : list Object) (w : World G) :
  forEach (map (fun o => [o]) l) initAsync w = forEach l initOne w.
Proof.
  revert w; induction l as [|o l IH]; intros w; simpl; [reflexivity|].
  unfold bind. rewrite initAsync_singleton.
  destruct (initOne o w) as [[[]|p] w']; [apply IH | reflexivity].
Qed.

Lemma batches_after_InitSync (i : InjectWrapper G) :
  Forall isSingleton (objects i) ->
  objects (InitSync i) = map (fun o => [o]) (registered i).
Proof.
  intros Hs. rewrite <- concat_after_InitSync. apply singleton_batches_concat.
  rewrite InitSync_is_spec. cbn [closeSyncBatch_spec objects].
  apply Forall_app. split; [exact Hs | apply Forall_singletons].
Qed.

(** X10: when every batch has one entry (no [InitAsync] was used), a
    successful initialization calls [Init] on the registered
    [Initializer]s one after the other in registration order, whatever
    the scheduler does. *)
Theorem default_initialization_follows_registration_order (w : World G) :
  Forall isSingleton (objects (wrapper w)) ->
  snd (Populate (resolver (g (wrapper w)))) = None ->
  (forall obj h, In obj (registered (wrapper w)) ->
                 isInitializer (Value obj) = true -> Init (Value obj) h = None) ->
  exists evs w',
    InitializeGraphWithImplicitObjects w = (Return tt, w')
    /\ events w' = (events w ++ evs)%list
    /\ initCalls evs = filter isInitializer (map Value (registered (wrapper w))).
Proof.
  intros Hs Hpop Hinit.
  rewrite InitializeGraphWithImplicitObjects_run. cbv zeta.
  rewrite g_InitSync, Hpop, (batches_after_InitSync _ Hs), initSingletons.
  match goal with
  | |- context [forEach _ initOne ?w1] =>
      destruct (initEach_ok (registered (wrapper w)) w1) as [e1 [E1 C1]]
  end.
  { intros obj h. apply Hinit. }
  rewrite E1. eexists. eexists. split; [reflexivity|]. cbn [wrapper events].
  rewrite <- app_assoc. split; [reflexivity|].
  rewrite initCalls_app, C1. now destruct (Logger (g (wrapper w))).
Qed.

Lemma initOne_fails (obj : Object) (w : World G) (e : string) :
  isInitializer (Value obj) = true ->
  (forall h, Init (Value obj) h = Some e) ->
  exists evs,
    initOne obj w
    = (Panic (PanicString ("Error initializing privided object *inject.Object:" ++ e)),
       mkWorld (wrapper w) (events w ++ evs)%list)
    /\ initCalls evs = [Value obj].
Proof.
  intros I He. unfold initOne, bind. rewrite I, log_run. unfold callInit.
  cbn [wrapper events]. rewrite He, log_run. cbn [wrapper events]. unfold panic.
  eexists. split.
  - rewrite <- !app_assoc. reflexivity.
  - rewrite !initCalls_app. destruct (Logger (g (wrapper w))); reflexivity.
Qed.

Arguments initOne_fails : clear implicits.

(** X11: when every batch has one entry, the first [Init] that returns
    an error ends initialization: the call panics with that error's
    text, the [Initializer]s registered before it have been initialized
    in order, and no entry registered after it is initialized. *)
Theorem first_Init_error_ends_initialization
        (w : World G) (before after : list Object) (obj : Object) (e : string) :
  Forall isSingleton (objects (wrapper w)) ->
  registered (wrapper w) = (before ++ obj :: after)%list ->
  snd (Populate (resolver (g (wrapper w)))) = None ->
  (forall o h, In o before -> isInitializer (Value o) = true -> Init (Value o) h = None) ->
  isInitializer (Value obj) = true ->
  (forall h, Init (Value obj) h = Some e) ->
  exists evs w',
    InitializeGraphWithImplicitObjects w
    = (Panic (PanicString ("Error initializing privided object *inject.Object:" ++ e)), w')
    /\ events w' = (events w ++ evs)%list
    /\ initCalls evs = (filter isInitializer (map Value before) ++ [Value obj])%list.
Proof.
  intros Hs Hreg Hpop Hbefore Hobj He.
  rewrite InitializeGraphWithImplicitObjects_run. cbv zeta.
  rewrite g_InitSync, Hpop, (batches_after_InitSync _ Hs), initSingletons, Hreg.
  rewrite forEach_app.
  match goal with
  | |- context [bind (forEach before initOne) _ ?w1] =>
      destruct (initEach_ok before w1 Hbefore) as [e1 [E1 C1]]
  end.
  rewrite (bind_Return _ _ _ E1). simpl.
  match goal with
  | |- context [bind (initOne obj) _ ?w2] =>
      destruct (initOne_fails obj w2 e Hobj He) as [e2 [E2 C2]]
  end.
  rewrite (bind_Panic _ _ _ E2). eexists. eexists. split; [reflexivity|].
  cbn [wrapper events]. rewrite <- !app_assoc. split; [reflexivity|].
  rewrite !initCalls_app, C1, C2. now destruct (Logger (g (wrapper w))).
Qed.

(** X12: [Stop] keeps no record of having run: a second [Stop] calls
    [Clean] on every [Cleaner] of the batch list again, in the same
    order. *)
Theorem Stop_twice_cleans_twice (w : World G) :
  exists evs,
    (Stop ;; Stop) w = (Return tt, mkWorld (wrapper w) (events w ++ evs)%list)
    /\ cleanCalls evs
       = (filter isCleaner (map Value (List.concat (objects (wrapper w))))
          ++ filter isCleaner (map Value (List.concat (objects (wrapper w)))))%list.
Proof.
  destruct (cleanAll_run (AllObjects (wrapper w)) w) as [e1 [E1 [C1 _]]].
  destruct (cleanAll_run (AllObjects (wrapper w))
              (mkWorld (wrapper w) (events w ++ e1)%list)) as [e2 [E2 [C2 _]]].
  exists (e1 ++ e2)%list. split.
  - unfold bind. rewrite Stop_run, E1, Stop_run. cbn [wrapper].
    rewrite E2. cbn [wrapper events]. now rewrite app_assoc.
  - rewrite cleanCalls_app, C1, C2, AllObjects_concat. reflexivity.
Qed.

(** X13: the strict check comes after all initialization: whether it
    passes or panics, [InitializeGraph] has made the same [Init] calls
    and leaves the same wrapper as [InitializeGraphWithImplicitObjects],
    and a panic of the latter is the outcome of the former. *)
Theorem strict_check_runs_after_initialization (w : World G) :
  initCalls (events (snd (InitializeGraph w)))
  = initCalls (events (snd (InitializeGraphWithImplicitObjects w)))
  /\ wrapper (snd (InitializeGraph w))
     = wrapper (snd (InitializeGraphWithImplicitObjects w))
  /\ forall p, fst (InitializeGraphWithImplicitObjects w) = Panic p ->
               InitializeGraph w = InitializeGraphWithImplicitObjects w.
Proof.
  unfold InitializeGraph, bind.
  destruct (InitializeGraphWithImplicitObjects w) as [[[]|p] w1]; simpl.
  - destruct (CheckNoImplicitObjects_events w1) as [evs [E C]]. rewrite E.
    cbn [wrapper events]. rewrite initCalls_app, C, app_nil_r.
    repeat split. intros p Hp; discriminate Hp.
  - repeat split.
Qed.

End Running.

Section Quiet.
Context {G : Type} {R : Resolver G} {HK : Hooks} {SC : Scheduler}.

Local Abbreviation quietly := (@quietly G _).

Lemma quietly_ret {A} (a : A) : quietly (@ret G A a).
Proof. intros w _. exists []. simpl. rewrite world_eta. auto. Qed.

Lemma quietly_panic {A} (p : PanicValue) : quietly (@panic G A p).
Proof. intros w _. exists []. simpl. rewrite world_eta. auto. Qed.

Lemma quietly_getWrapper : quietly (@getWrapper G).
Proof. intros w _. exists []. simpl. rewrite world_eta. auto. Qed.

Lemma quietly_log (msg : string) : quietly (log msg).
Proof.
  intros w Hq. exists []. rewrite log_run, Hq. simpl. auto.
Qed.

Lemma quietly_bind {A B} (m : M G A) (k : A -> M G B) :
  quietly m -> (forall a, quietly (k a)) -> quietly (bind m k).
Proof.
  intros Hm Hk w Hq. unfold bind. destruct (Hm w Hq) as [e1 [E1 F1]].
  destruct (m w) as [[a|p] w1]; simpl in E1; subst w1.
  - destruct (Hk a (mkWorld (wrapper w) (events w ++ e1)%list) Hq) as [e2 [E2 F2]].
    exists (e1 ++ e2)%list. rewrite E2. simpl. rewrite app_assoc.
    split; [reflexivity | now apply Forall_app].
  - exists e1. auto.
Qed.

Lemma quietly_forEach {A} (l : list A) (body : A -> M G unit) :
  (forall x, quietly (body x)) -> quietly (forEach l body).
Proof.
  intros Hb. induction l as [|x l IH]; simpl.
  - apply quietly_ret.
  - apply quietly_bind; auto.
Qed.

Lemma quietly_initOne (obj : Object) : quietly (initOne obj).
Proof.
  unfold initOne. destruct (isInitializer (Value obj)); [|apply quietly_ret].
  apply quietly_bind; [apply quietly_log|]. intros _.
  apply quietly_bind.
  - intros w _. exists [InitCall (Value obj)]. split; [reflexivity|].
    repeat constructor.
  - intros [e|].
    + apply quietly_bind; [apply quietly_log|]. intros _. apply quietly_panic.
    + apply quietly_log.
Qed.

Lemma quietly_initAsync (objs : list Object) : quietly (initAsync objs).
Proof.
  unfold initAsync. apply quietly_bind.
  - destruct (Nat.ltb 1 (List.length objs)); [apply quietly_log | apply quietly_ret].
  - intros _. apply quietly_forEach, quietly_initOne.
Qed.

Lemma quietly_cleanOne (obj : Any) : quietly (cleanOne obj).
Proof.
  unfold cleanOne. destruct (isCleaner obj); [|apply quietly_ret].
  apply quietly_bind; [apply quietly_log|]. intros _.
  apply quietly_bind.
  - intros w _. exists [CleanCall obj]. split; [reflexivity|]. repeat constructor.
  - intros [e|]; [|apply quietly_ret].
    intros w _. eexists. split; [reflexivity|]. repeat constructor.
Qed.

Lemma quietly_CheckNoImplicitObjects : quietly CheckNoImplicitObjects.
Proof.
  unfold CheckNoImplicitObjects. apply quietly_bind; [apply quietly_getWrapper|].
  intros i. apply quietly_forEach. intros o.
  destruct (explicitlyCreated (objects i) o) as [[|]|p];
    [apply quietly_log | apply quietly_panic | apply quietly_panic].
Qed.

(** X14: a wrapper without a logger (as [New] makes it) never emits a
    debug line: a registration call adds no event, initialization adds
    only the [Init] calls, and [Stop] only the [Clean] calls and the
    error reports. *)
Theorem no_logger_no_debug_line (w : World G) :
  Logger (g (wrapper w)) = false ->
  (forall r, events (snd (register r w)) = events w)
  /\ (exists evs,
        events (snd (InitializeGraph w)) = (events w ++ evs)%list
        /\ Forall (fun e => isDebugf e = false) evs)
  /\ (exists evs,
        events (snd (Stop w)) = (events w ++ evs)%list
        /\ Forall (fun e => isDebugf e = false) evs).
Proof.
  intros Hq. split; [|split].
  - intros r. destruct (constructorError r) as [e|] eqn:Hc.
    + destruct r as [v | v [e'|] | n v]; try discriminate Hc. reflexivity.
    + rewrite (register_outcome _ _ Hc). cbv zeta. rewrite Hq.
      destruct (snd (Provide (resolver (g (wrapper w))) (entryOf r)));
        cbn [snd events]; apply app_nil_r.
  - unfold InitializeGraph, bind.
    rewrite InitializeGraphWithImplicitObjects_run. cbv zeta.
    rewrite g_InitSync, Hq, app_nil_r.
    destruct (snd (Populate (resolver (g (wrapper w))))) as [e|].
    + exists []. cbn [snd events]. rewrite app_nil_r. auto.
    + match goal with
      | |- context [forEach ?l initAsync ?w1] =>
          destruct (quietly_forEach l initAsync quietly_initAsync w1 eq_refl)
            as [e1 [E1 F1]];
          destruct (forEach l initAsync w1) as [[[]|p] w2]
      end; simpl in E1; subst w2.
      * match goal with
        | |- context [CheckNoImplicitObjects ?w2] =>
            destruct (quietly_CheckNoImplicitObjects w2 eq_refl) as [e2 [E2 F2]]
        end.
        rewrite E2. cbn [wrapper events]. exists (e1 ++ e2)%list.
        rewrite app_assoc. split; [reflexivity | now apply Forall_app].
      * exists e1. auto.
  - rewrite Stop_run.
    destruct (quietly_forEach (AllObjects (wrapper w)) cleanOne quietly_cleanOne w Hq)
      as [evs [E F]].
    exists evs. rewrite E. auto.
Qed.

End Quiet.

(** ** Concrete runs of the further properties *)

Lemma rejected_registration_buffers_nothing_witness :
  fst (@register _ (listResolver []) (RegNamedObject "aaa" secondAaa) namedWorld)
  = Panic (PanicString
             (provideErrorMessage (RegNamedObject "aaa" secondAaa)
                                  "provided two instances named aaa"))
  /\ tmpObjects (wrapper (snd (@register _ (listResolver [])
                                 (RegNamedObject "aaa" secondAaa) namedWorld)))
     = tmpObjects (wrapper namedWorld)
  /\ objects (wrapper (snd (@register _ (listResolver [])
                              (RegNamedObject "aaa" secondAaa) namedWorld)))
     = objects (wrapper namedWorld)
  /\ resolver (g (wrapper (snd (@register _ (listResolver [])
                                  (RegNamedObject "aaa" secondAaa) namedWorld))))
     = fst (@Provide _ (listResolver []) (resolver (g (wrapper namedWorld)))
              (entryOf (RegNamedObject "aaa" secondAaa))).
Proof.
  apply (@rejected_registration_buffers_nothing _ (listResolver [])
           (RegNamedObject "aaa" secondAaa) namedWorld
           "provided two instances named aaa"); reflexivity.
Defined.

Lemma WithObjects_stops_at_first_failure_witness :
  @WithObjects _ structPtrResolver ([anInitializable] ++ anInt :: [aStoppable])
    (startWorld (@New _ structPtrResolver))
  = (Panic (PanicString
              "Error providing object int:expected unnamed object value to be a pointer to a struct"),
     mkWorld (mkWrapper (mkGraph false [mkObject "" anInitializable]) []
                        [mkObject "" anInitializable]) [])
  /\ tmpObjects (wrapper (snd (@WithObjects _ structPtrResolver [anInitializable]
                                 (startWorld (@New _ structPtrResolver)))))
     = ([] ++ map (mkObject "") [anInitializable])%list.
Proof.
  apply (@WithObjects_stops_at_first_failure _ structPtrResolver
           [anInitializable] [aStoppable] anInt
           (startWorld (@New _ structPtrResolver))
           (snd (@WithObjects _ structPtrResolver [anInitializable]
                   (startWorld (@New _ structPtrResolver)))));
    reflexivity.
Defined.

Lemma registered_entry_is_found_witness :
  MustGetNamedObject (close CloseSync (wrapper twoObjectsWorld))
                     (ptrTo "diwrapper.StoppableStruct" 0) ""
  = Return aStoppable.
Proof.
  apply (@registered_entry_is_found _ CloseSync (wrapper twoObjectsWorld)
           (mkObject "" aStoppable) (TPtr (TStruct "diwrapper.StoppableStruct"))
           (ptrTo "diwrapper.StoppableStruct" 0)); try reflexivity.
  - simpl. auto.
  - intros o' [<-|[<-|[]]] Ht _; [discriminate Ht | reflexivity].
Defined.

Lemma unclosed_buffer_is_invisible_witness :
  @Stop _ sampleHooks twoObjectsWorld = (Return tt, twoObjectsWorld)
  /\ (forall sample name,
        exists p, MustGetNamedObject (wrapper twoObjectsWorld) sample name = Panic p)
  /\ fst (@CheckNoImplicitObjects _ (listResolver []) twoObjectsWorld)
     = Panic (PanicString "*diwrapper.InitializableStruct not explicitly created").
Proof.
  apply (@unclosed_buffer_is_invisible _ (listResolver []) sampleHooks twoObjectsWorld).
  reflexivity.
Defined.

Lemma Populate_error_aborts_before_any_Init_witness :
  exists evs w1,
    @InitializeGraphWithImplicitObjects _ unresolvedResolver sampleHooks inOrder
      (afterRegistering unresolvedResolver [RegObject aBbb1])
    = (Panic (PanicString ("Error populating graph: "
                           ++ "did not find object named unknown_aaa")), w1)
    /\ @InitializeGraph _ unresolvedResolver sampleHooks inOrder
         (afterRegistering unresolvedResolver [RegObject aBbb1])
       = (Panic (PanicString ("Error populating graph: "
                              ++ "did not find object named unknown_aaa")), w1)
    /\ events w1 = (events (afterRegistering unresolvedResolver [RegObject aBbb1]) ++ evs)%list
    /\ initCalls evs = []
    /\ objects (wrapper w1)
       = (objects (wrapper (afterRegistering unresolvedResolver [RegObject aBbb1]))
          ++ map (fun o => [o])
                 (tmpObjects (wrapper (afterRegistering unresolvedResolver
                                         [RegObject aBbb1]))))%list
    /\ tmpObjects (wrapper w1) = [].
Proof.
  apply (@Populate_error_aborts_before_any_Init _ unresolvedResolver sampleHooks inOrder
           (afterRegistering unresolvedResolver [RegObject aBbb1])
           "did not find object named unknown_aaa").
  reflexivity.
Defined.

Lemma default_initialization_follows_registration_order_witness :
  exists evs w',
    @InitializeGraphWithImplicitObjects _ (listResolver []) sampleHooks lastFirst
      twoObjectsWorld
    = (Return tt, w')
    /\ events w' = (events twoObjectsWorld ++ evs)%list
    /\ initCalls evs
       = filter (@isInitializer sampleHooks)
                (map Value (registered (wrapper twoObjectsWorld))).
Proof.
  apply (@default_initialization_follows_registration_order
           _ (listResolver []) sampleHooks lastFirst twoObjectsWorld).
  - constructor.
  - reflexivity.
  - intros obj h [<-|[<-|[]]] I; [reflexivity | discriminate I].
Defined.

Lemma first_Init_error_ends_initialization_witness :
  exists evs w',
    @InitializeGraphWithImplicitObjects _ (listResolver []) sampleHooks lastFirst
      middleFailsWorld
    = (Panic (PanicString ("Error initializing privided object *inject.Object:" ++ "boom")),
       w')
    /\ events w' = (events middleFailsWorld ++ evs)%list
    /\ initCalls evs
       = (filter (@isInitializer sampleHooks) (map Value [mkObject "" anInitializable])
          ++ [Value (mkObject "" aFailingInit)])%list.
Proof.
  apply (@first_Init_error_ends_initialization
           _ (listResolver []) sampleHooks lastFirst middleFailsWorld
           [mkObject "" anInitializable]
           [mkObject "" (ptrTo "diwrapper.InitializableStruct" 9)]
           (mkObject "" aFailingInit) "boom").
  - constructor.
  - reflexivity.
  - reflexivity.
  - intros o h [<-|[]] _. reflexivity.
  - reflexivity.
  - intros h. reflexivity.
Defined.

Lemma no_logger_no_debug_line_witness :
  (forall r, events (snd (@register _ (listResolver []) r twoObjectsWorld))
             = events twoObjectsWorld)
  /\ (exists evs,
        events (snd (@InitializeGraph _ (listResolver []) sampleHooks inOrder
                       twoObjectsWorld))
        = (events twoObjectsWorld ++ evs)%list
        /\ Forall (fun e => isDebugf e = false) evs)
  /\ (exists evs,
        events (snd (@Stop _ sampleHooks twoObjectsWorld))
        = (events twoObjectsWorld ++ evs)%list
        /\ Forall (fun e => isDebugf e = false) evs).
Proof.
  apply (@no_logger_no_debug_line _ (listResolver []) sampleHooks inOrder twoObjectsWorld).
  reflexivity.
Defined.
